(** * Cade_Games: the paddle-ball and obstacle-runner sketches

    A shallow embedding of [src/pong_game/pong_game.ino], which holds two
    Arduino sketches: the paddle-ball game (module [Pong]) and the
    side-scrolling obstacle runner (module [Flappy]).

    - C++ [float] is IEEE binary32 and [double] is IEEE binary64 (the target
      is an ESP32); both are modelled with the Standard Library's executable
      specification of IEEE arithmetic, [SpecFloat].
    - C++ [int] is a 32-bit two's complement integer, modelled as [Z] with the
      wrap-around written out.
    - The global variables of a sketch are a record; [loop] is a function on
      that record and on the pin levels sampled in the iteration.
    - The drawing routines only read the globals and are left out. *)

From Stdlib Require Import ZArith List Bool Lia.
From Stdlib Require Import Floats.SpecFloat.
Import ListNotations.
Open Scope Z_scope.

(** ** Machine integers *)

Module Int32.
Definition min_signed : Z := - 2 ^ 31.
Definition max_signed : Z := 2 ^ 31 - 1.

(** Reduction of a mathematical result to the 32-bit signed range. *)
Definition wrap (z : Z) : Z := (z + 2 ^ 31) mod 2 ^ 32 - 2 ^ 31.

Definition add (a b : Z) : Z := wrap (a + b).
Definition sub (a b : Z) : Z := wrap (a - b).
Definition mul (a b : Z) : Z := wrap (a * b).
Definition incr (a : Z) : Z := add a 1.

Definition in_range (z : Z) : Prop := min_signed <= z <= max_signed.
End Int32.

(** ** Floating point *)

(** C++ [double]: IEEE binary64. *)
Module F64.
Definition prec : Z := 53.
Definition emax : Z := 1024.

Definition of_int (z : Z) : spec_float := binary_normalize prec emax z 0 false.
Definition add : spec_float -> spec_float -> spec_float := SFadd prec emax.
Definition mul : spec_float -> spec_float -> spec_float := SFmul prec emax.
Definition div : spec_float -> spec_float -> spec_float := SFdiv prec emax.

(** A decimal literal [n/10] is the binary64 number nearest to the
    rational n/10, which is what the correctly rounded quotient of the
    exact operands n and 10 is. *)
Definition tenths (n : Z) : spec_float := div (of_int n) (of_int 10).
End F64.

(** C++ [float]: IEEE binary32. *)
Module F32.
Definition prec : Z := 24.
Definition emax : Z := 128.

Definition of_int (z : Z) : spec_float := binary_normalize prec emax z 0 false.
Definition add : spec_float -> spec_float -> spec_float := SFadd prec emax.
Definition sub : spec_float -> spec_float -> spec_float := SFsub prec emax.
Definition neg : spec_float -> spec_float := SFopp.

(** [a < b], [a <= b]; C++ [a > b] is [ltb b a] and [a >= b] is [leb b a]. *)
Definition ltb : spec_float -> spec_float -> bool := SFltb.
Definition leb : spec_float -> spec_float -> bool := SFleb.

(** Implicit promotion of a [float] operand to [double] (exact). *)
Definition to_double (x : spec_float) : spec_float :=
  match x with
  | S754_finite s m e => binary_round F64.prec F64.emax s m e
  | _ => x
  end.

(** Conversion of a [double] result back to [float] on assignment
    (round to nearest, ties to even). *)
Definition of_double (x : spec_float) : spec_float :=
  match x with
  | S754_finite s m e => binary_round prec emax s m e
  | _ => x
  end.

Definition zero : spec_float := S754_zero false.

Definition is_nan (x : spec_float) : bool :=
  match x with S754_nan => true | _ => false end.
End F32.

(** ** What the two sketches share *)

Inductive GameState : Type :=
  | START_SCREEN
  | PLAYING
  | GAME_OVER.

(** The two switches as sampled in one iteration of [loop]. The pins are
    wired active-low, so [!digitalRead(pin)] is "pressed". *)
Record Input : Type := mkInput {
  left_pressed : bool;   (* !digitalRead(LEFT_SWITCH_PIN) *)
  right_pressed : bool   (* !digitalRead(RIGHT_SWITCH_PIN) *)
}.

Definition any_pressed (i : Input) : bool := left_pressed i || right_pressed i.

(** Where the program is: at the top of [loop], or spinning in the
    [while(!digitalRead(..) || !digitalRead(..));] that follows a transition
    taken on a press. *)
Inductive Control : Type :=
  | AtLoop
  | AwaitRelease.

(** The random source is the Arduino core's, outside the repository. It is
    taken as the list of raw non-negative values that it will produce, in
    order (0 once the list is used up). *)
Definition Rng : Type := list N.

Definition raw_draw (g : Rng) : N * Rng :=
  match g with
  | [] => (0%N, [])
  | r :: g' => (r, g')
  end.

(** [random(howbig)]: 0 if [howbig] is 0, the raw value modulo [howbig]
    otherwise. *)
Definition random1 (howbig : Z) (g : Rng) : Z * Rng :=
  if howbig =? 0 then (0, g)
  else let (r, g') := raw_draw g in (Z.of_N r mod howbig, g').

(** [random(howsmall, howbig)]: [howsmall] if the range is empty, else
    [howsmall + random(howbig - howsmall)]. *)
Definition random2 (howsmall howbig : Z) (g : Rng) : Z * Rng :=
  if howbig <=? howsmall then (howsmall, g)
  else let (r, g') := random1 (howbig - howsmall) g in (r + howsmall, g').

Definition idle : Input := mkInput false false.
Definition press_left : Input := mkInput true false.

(** ** The paddle-ball sketch *)

Module Pong.

Definition SCREEN_WIDTH : Z := 320.
Definition SCREEN_HEIGHT : Z := 170.
Definition PADDLE_WIDTH : Z := 80.
Definition PADDLE_HEIGHT : Z := 10.
Definition PADDLE_Y_POS : Z := SCREEN_HEIGHT - PADDLE_HEIGHT - 2.
Definition AI_PADDLE_Y_POS : Z := 2.
Definition PADDLE_SPEED : Z := 6.
Definition BALL_SIZE : Z := 10.
Definition WINNING_SCORE : Z := 5.

(** The global variables, with the state of the random source. *)
Record Vars : Type := mkVars {
  gameState : GameState;
  player_x : spec_float;
  ai_x : spec_float;
  ball_x : spec_float;
  ball_y : spec_float;
  ball_vx : spec_float;
  ball_vy : spec_float;
  playerScore : Z;
  aiScore : Z;
  rng : Rng
}.

Definition set_gameState (v : GameState) (s : Vars) : Vars :=
  mkVars v (player_x s) (ai_x s) (ball_x s) (ball_y s) (ball_vx s) (ball_vy s)
         (playerScore s) (aiScore s) (rng s).
Definition set_player_x (v : spec_float) (s : Vars) : Vars :=
  mkVars (gameState s) v (ai_x s) (ball_x s) (ball_y s) (ball_vx s) (ball_vy s)
         (playerScore s) (aiScore s) (rng s).
Definition set_ai_x (v : spec_float) (s : Vars) : Vars :=
  mkVars (gameState s) (player_x s) v (ball_x s) (ball_y s) (ball_vx s) (ball_vy s)
         (playerScore s) (aiScore s) (rng s).
Definition set_ball_x (v : spec_float) (s : Vars) : Vars :=
  mkVars (gameState s) (player_x s) (ai_x s) v (ball_y s) (ball_vx s) (ball_vy s)
         (playerScore s) (aiScore s) (rng s).
Definition set_ball_y (v : spec_float) (s : Vars) : Vars :=
  mkVars (gameState s) (player_x s) (ai_x s) (ball_x s) v (ball_vx s) (ball_vy s)
         (playerScore s) (aiScore s) (rng s).
Definition set_ball_vx (v : spec_float) (s : Vars) : Vars :=
  mkVars (gameState s) (player_x s) (ai_x s) (ball_x s) (ball_y s) v (ball_vy s)
         (playerScore s) (aiScore s) (rng s).
Definition set_ball_vy (v : spec_float) (s : Vars) : Vars :=
  mkVars (gameState s) (player_x s) (ai_x s) (ball_x s) (ball_y s) (ball_vx s) v
         (playerScore s) (aiScore s) (rng s).
Definition set_playerScore (v : Z) (s : Vars) : Vars :=
  mkVars (gameState s) (player_x s) (ai_x s) (ball_x s) (ball_y s) (ball_vx s) (ball_vy s)
         v (aiScore s) (rng s).
Definition set_aiScore (v : Z) (s : Vars) : Vars :=
  mkVars (gameState s) (player_x s) (ai_x s) (ball_x s) (ball_y s) (ball_vx s) (ball_vy s)
         (playerScore s) v (rng s).
Definition set_rng (v : Rng) (s : Vars) : Vars :=
  mkVars (gameState s) (player_x s) (ai_x s) (ball_x s) (ball_y s) (ball_vx s) (ball_vy s)
         (playerScore s) (aiScore s) v.

(** [serveBall(direction)]. The two draws in
    [random(2, 4) * (random(2) == 0 ? 1 : -1)] are taken left to right. *)
Definition serveBall (direction : Z) (s : Vars) : Vars :=
  let (speed, g1) := random2 2 4 (rng s) in
  let (coin, g2) := random1 2 g1 in
  let s := set_ball_x (F32.of_int (Z.quot SCREEN_WIDTH 2)) s in
  let s := set_ball_y (F32.of_int (Z.quot SCREEN_HEIGHT 2)) s in
  let s := set_ball_vx (F32.of_int (Int32.mul speed (if coin =? 0 then 1 else -1))) s in
  let s := set_ball_vy (F32.of_int (Int32.mul 3 direction)) s in
  set_rng g2 s.

Definition resetGame (s : Vars) : Vars :=
  let s := set_playerScore 0 s in
  let s := set_aiScore 0 s in
  let s := set_player_x (F32.of_int (Z.quot (SCREEN_WIDTH - PADDLE_WIDTH) 2)) s in
  let s := set_ai_x (F32.of_int (Z.quot (SCREEN_WIDTH - PADDLE_WIDTH) 2)) s in
  let (coin, g) := random1 2 (rng s) in
  serveBall (if coin =? 0 then 1 else -1) (set_rng g s).

(** [x += d] and [x -= d] for a [float] x and a [double] d. *)
Definition add_double (x d : spec_float) : spec_float :=
  F32.of_double (F64.add (F32.to_double x) d).
Definition sub_double (x d : spec_float) : spec_float :=
  F32.of_double (SFsub F64.prec F64.emax (F32.to_double x) d).

(** [PADDLE_SPEED * 0.7], a [double]. *)
Definition ai_speed : spec_float := F64.mul (F64.of_int PADDLE_SPEED) (F64.tenths 7).

(** The blocks of [updateGameLogic], in source order. *)

(* --- Player Input --- *)
Definition player_input (inp : Input) (s : Vars) : Vars :=
  let s := if left_pressed inp
           then set_player_x (F32.sub (player_x s) (F32.of_int PADDLE_SPEED)) s else s in
  if right_pressed inp
  then set_player_x (F32.add (player_x s) (F32.of_int PADDLE_SPEED)) s else s.

(* Constrain player paddle to screen *)
Definition constrain_player (s : Vars) : Vars :=
  let s := if F32.ltb (player_x s) (F32.of_int 0) then set_player_x (F32.of_int 0) s else s in
  if F32.ltb (F32.of_int (SCREEN_WIDTH - PADDLE_WIDTH)) (player_x s)
  then set_player_x (F32.of_int (SCREEN_WIDTH - PADDLE_WIDTH)) s else s.

(* --- AI Logic --- *)
Definition ai_logic (s : Vars) : Vars :=
  let ai_target_x := F32.sub (ball_x s) (F32.of_int (Z.quot PADDLE_WIDTH 2)) in
  let s := if F32.ltb (ai_x s) ai_target_x
           then set_ai_x (add_double (ai_x s) ai_speed) s else s in
  if F32.ltb ai_target_x (ai_x s)
  then set_ai_x (sub_double (ai_x s) ai_speed) s else s.

(* Constrain AI paddle to screen *)
Definition constrain_ai (s : Vars) : Vars :=
  let s := if F32.ltb (ai_x s) (F32.of_int 0) then set_ai_x (F32.of_int 0) s else s in
  if F32.ltb (F32.of_int (SCREEN_WIDTH - PADDLE_WIDTH)) (ai_x s)
  then set_ai_x (F32.of_int (SCREEN_WIDTH - PADDLE_WIDTH)) s else s.

(* --- Ball Physics --- *)
Definition move_ball (s : Vars) : Vars :=
  let s := set_ball_x (F32.add (ball_x s) (ball_vx s)) s in
  set_ball_y (F32.add (ball_y s) (ball_vy s)) s.

(* Wall collisions (left/right) *)
Definition wall_contact (s : Vars) : bool :=
  F32.ltb (ball_x s) (F32.of_int 0)
  || F32.ltb (F32.of_int (SCREEN_WIDTH - BALL_SIZE)) (ball_x s).

Definition wall_collision (s : Vars) : Vars :=
  if wall_contact s then set_ball_vx (F32.neg (ball_vx s)) s else s.

(* Player paddle *)
Definition player_contact (s : Vars) : bool :=
  F32.ltb (F32.of_int 0) (ball_vy s)
  && F32.leb (F32.of_int PADDLE_Y_POS) (F32.add (ball_y s) (F32.of_int BALL_SIZE))
  && F32.ltb (player_x s) (F32.add (ball_x s) (F32.of_int BALL_SIZE))
  && F32.ltb (ball_x s) (F32.add (player_x s) (F32.of_int PADDLE_WIDTH)).

Definition spin (s : Vars) : spec_float :=
  F64.div
    (F32.to_double
       (F32.sub (ball_x s)
                (F32.add (player_x s) (F32.of_int (Z.quot PADDLE_WIDTH 2)))))
    (F64.of_int 10).

Definition player_collision (s : Vars) : Vars :=
  if player_contact s
  then let s := set_ball_vy (F32.neg (ball_vy s)) s in
       set_ball_vx (add_double (ball_vx s) (spin s)) s
  else s.

(* AI paddle *)
Definition ai_contact (s : Vars) : bool :=
  F32.ltb (ball_vy s) (F32.of_int 0)
  && F32.leb (ball_y s) (F32.of_int (AI_PADDLE_Y_POS + PADDLE_HEIGHT))
  && F32.ltb (ai_x s) (F32.add (ball_x s) (F32.of_int BALL_SIZE))
  && F32.ltb (ball_x s) (F32.add (ai_x s) (F32.of_int PADDLE_WIDTH)).

Definition ai_collision (s : Vars) : Vars :=
  if ai_contact s then set_ball_vy (F32.neg (ball_vy s)) s else s.

(* --- Scoring --- *)
Definition ball_below (s : Vars) : bool :=
  F32.ltb (F32.of_int SCREEN_HEIGHT) (ball_y s).
Definition ball_above (s : Vars) : bool :=
  F32.ltb (ball_y s) (F32.of_int 0).

Definition ai_scores (s : Vars) : Vars :=
  if ball_below s
  then serveBall (-1) (set_aiScore (Int32.incr (aiScore s)) s) else s.

Definition player_scores (s : Vars) : Vars :=
  if ball_above s
  then serveBall 1 (set_playerScore (Int32.incr (playerScore s)) s) else s.

(** The states in which the wall test, the paddle tests and the scoring
    tests are made, and the whole of [updateGameLogic]. *)
Definition before_wall (inp : Input) (s : Vars) : Vars :=
  move_ball (constrain_ai (ai_logic (constrain_player (player_input inp s)))).

Definition before_paddles (inp : Input) (s : Vars) : Vars :=
  wall_collision (before_wall inp s).

Definition before_scoring (inp : Input) (s : Vars) : Vars :=
  ai_collision (player_collision (before_paddles inp s)).

Definition updateGameLogic (inp : Input) (s : Vars) : Vars :=
  player_scores (ai_scores (before_scoring inp s)).

Definition win_reached (s : Vars) : bool :=
  (WINNING_SCORE <=? playerScore s) || (WINNING_SCORE <=? aiScore s).

(** One iteration of [loop], up to the busy wait when it enters one. *)
Definition loop (inp : Input) (s : Vars) : Control * Vars :=
  match gameState s with
  | START_SCREEN =>
      if any_pressed inp
      then (AwaitRelease, set_gameState PLAYING (resetGame s))
      else (AtLoop, s)
  | PLAYING =>
      let s := updateGameLogic inp s in
      (AtLoop, if win_reached s then set_gameState GAME_OVER s else s)
  | GAME_OVER =>
      if any_pressed inp
      then (AwaitRelease, set_gameState START_SCREEN (resetGame s))
      else (AtLoop, s)
  end.

(** The running sketch: one sample of the pins is consumed per iteration
    of [loop], and per poll of the busy wait. *)
Definition step (inp : Input) (m : Control * Vars) : Control * Vars :=
  match fst m with
  | AwaitRelease => if any_pressed inp then m else (AtLoop, snd m)
  | AtLoop => loop inp (snd m)
  end.

(** The globals as the C++ runtime zero-initialises them. *)
Definition globals (g : Rng) : Vars :=
  mkVars START_SCREEN F32.zero F32.zero F32.zero F32.zero F32.zero F32.zero 0 0 g.

(** [setup()]; [g] is the sequence the seeded generator will give. *)
Definition setup (g : Rng) : Control * Vars :=
  (AtLoop, set_gameState START_SCREEN (resetGame (globals g))).

Definition run (g : Rng) (inputs : list Input) : Control * Vars :=
  fold_left (fun m inp => step inp m) inputs (setup g).

(** The states the sketch can be in. *)
Inductive reachable : Control * Vars -> Prop :=
  | reach_setup : forall g, reachable (setup g)
  | reach_step : forall inp m, reachable m -> reachable (step inp m).

(** A paddle position within the screen: [0 <= x <= SCREEN_WIDTH - PADDLE_WIDTH]. *)
Definition paddle_on_screen (x : spec_float) : Prop :=
  F32.leb (F32.of_int 0) x = true
  /\ F32.leb x (F32.of_int (SCREEN_WIDTH - PADDLE_WIDTH)) = true.

(** The ball as a serve in [direction] leaves it: at the centre of the
    screen, horizontal speed 2 or 3 either way, vertical speed 3 signed by
    the direction. *)
Definition served (direction : Z) (s : Vars) : Prop :=
  ball_x s = F32.of_int (Z.quot SCREEN_WIDTH 2)
  /\ ball_y s = F32.of_int (Z.quot SCREEN_HEIGHT 2)
  /\ ball_vy s = F32.of_int (3 * direction)
  /\ exists v, In v [2; 3; -2; -3] /\ ball_vx s = F32.of_int v.

(** The variables that only the scoring block and [loop] write, and the
    two paddle positions. *)
Definition bookkeeping (s : Vars) : GameState * Z * Z * Rng :=
  (gameState s, playerScore s, aiScore s, rng s).
Definition paddles (s : Vars) : spec_float * spec_float := (player_x s, ai_x s).

Definition paddles_on_screen (s : Vars) : Prop :=
  paddle_on_screen (player_x s) /\ paddle_on_screen (ai_x s).

(** A state of play used to exercise the theorems: the ball is one tick
    from leaving at the bottom, away from the player's paddle, and the
    opponent has [n] points. *)
Definition ball_leaving (n : Z) (g : Rng) : Vars :=
  mkVars PLAYING (F32.of_int 0) (F32.of_int 0) (F32.of_int 300) (F32.of_int 169)
         (F32.of_int 2) (F32.of_int 3) 0 n g.


(** The session is over only with a winner. *)
Definition over_means_won (s : Vars) : Prop :=
  gameState s = GAME_OVER ->
  WINNING_SCORE <= playerScore s \/ WINNING_SCORE <= aiScore s.


End Pong.

(** ** The obstacle-runner sketch *)

Module Flappy.

Definition SCREEN_WIDTH : Z := 320.
Definition SCREEN_HEIGHT : Z := 170.
Definition BIRD_X_POS : Z := 60.
Definition BIRD_WIDTH : Z := 20.
Definition BIRD_HEIGHT : Z := 20.
Definition GRAVITY : spec_float := F64.tenths 3.            (* 0.3 *)
Definition FLAP_VELOCITY : spec_float := F64.of_int (-5).   (* -5.0 *)
Definition GROUND_HEIGHT : Z := 10.
Definition PIPE_WIDTH : Z := 40.
Definition PIPE_GAP_HEIGHT : Z := 80.
Definition PIPE_SPEED : Z := 2.
Definition PIPE_SPACING : Z := 180.
Definition NUM_PIPES : nat := 2.

Record Pipe : Type := mkPipe {
  x : Z;         (* left edge *)
  gap_y : Z;     (* centre of the gap *)
  scored : bool
}.

(** The global variables, with the state of the random source. The array
    [pipes] is the list of its [NUM_PIPES] slots in index order. *)
Record Vars : Type := mkVars {
  gameState : GameState;
  pipes : list Pipe;
  bird_y : spec_float;
  bird_y_velocity : spec_float;
  score : Z;
  highScore : Z;
  button_was_pressed : bool;
  rng : Rng
}.

Definition set_gameState (v : GameState) (s : Vars) : Vars :=
  mkVars v (pipes s) (bird_y s) (bird_y_velocity s) (score s) (highScore s)
         (button_was_pressed s) (rng s).
Definition set_pipes (v : list Pipe) (s : Vars) : Vars :=
  mkVars (gameState s) v (bird_y s) (bird_y_velocity s) (score s) (highScore s)
         (button_was_pressed s) (rng s).
Definition set_bird_y (v : spec_float) (s : Vars) : Vars :=
  mkVars (gameState s) (pipes s) v (bird_y_velocity s) (score s) (highScore s)
         (button_was_pressed s) (rng s).
Definition set_bird_y_velocity (v : spec_float) (s : Vars) : Vars :=
  mkVars (gameState s) (pipes s) (bird_y s) v (score s) (highScore s)
         (button_was_pressed s) (rng s).
Definition set_score (v : Z) (s : Vars) : Vars :=
  mkVars (gameState s) (pipes s) (bird_y s) (bird_y_velocity s) v (highScore s)
         (button_was_pressed s) (rng s).
Definition set_highScore (v : Z) (s : Vars) : Vars :=
  mkVars (gameState s) (pipes s) (bird_y s) (bird_y_velocity s) (score s) v
         (button_was_pressed s) (rng s).
Definition set_button_was_pressed (v : bool) (s : Vars) : Vars :=
  mkVars (gameState s) (pipes s) (bird_y s) (bird_y_velocity s) (score s) (highScore s)
         v (rng s).
Definition set_rng (v : Rng) (s : Vars) : Vars :=
  mkVars (gameState s) (pipes s) (bird_y s) (bird_y_velocity s) (score s) (highScore s)
         (button_was_pressed s) v.

(** The bounds passed to [random] for a gap centre. *)
Definition gap_lo : Z := Z.quot PIPE_GAP_HEIGHT 2 + 20.
Definition gap_hi : Z := SCREEN_HEIGHT - Z.quot PIPE_GAP_HEIGHT 2 - GROUND_HEIGHT - 20.

(** The [for] loop of [setupGame] over the slots of [pipes], from index [i]. *)
Fixpoint init_pipes (i : Z) (slots : list Pipe) (g : Rng) : list Pipe * Rng :=
  match slots with
  | [] => ([], g)
  | _ :: rest =>
      let (gy, g1) := random2 gap_lo gap_hi g in
      let (rest', g2) := init_pipes (i + 1) rest g1 in
      (mkPipe (Int32.add SCREEN_WIDTH (Int32.mul i PIPE_SPACING)) gy false :: rest', g2)
  end.

Definition setupGame (s : Vars) : Vars :=
  let s := set_bird_y (F32.of_int (Z.quot SCREEN_HEIGHT 2)) s in
  let s := set_bird_y_velocity (F32.of_int 0) s in
  let s := set_score 0 s in
  let (ps, g) := init_pipes 0 (pipes s) (rng s) in
  set_rng g (set_pipes ps s).

(** [checkCollisions]. *)
Definition out_of_bounds (s : Vars) : bool :=
  F32.ltb (bird_y s) (F32.of_int 0)
  || F32.ltb (F32.of_int (SCREEN_HEIGHT - GROUND_HEIGHT))
             (F32.add (bird_y s) (F32.of_int BIRD_HEIGHT)).

Definition aligned (p : Pipe) : bool :=
  (x p <? BIRD_X_POS + BIRD_WIDTH) && (BIRD_X_POS <? Int32.add (x p) PIPE_WIDTH).

Definition misses_gap (y : spec_float) (p : Pipe) : bool :=
  F32.ltb y (F32.of_int (Int32.sub (gap_y p) (Z.quot PIPE_GAP_HEIGHT 2)))
  || F32.ltb (F32.of_int (Int32.add (gap_y p) (Z.quot PIPE_GAP_HEIGHT 2)))
             (F32.add y (F32.of_int BIRD_HEIGHT)).

Fixpoint hits_pipe (y : spec_float) (ps : list Pipe) : bool :=
  match ps with
  | [] => false
  | p :: rest => if aligned p && misses_gap y p then true else hits_pipe y rest
  end.

Definition checkCollisions (s : Vars) : Vars :=
  if out_of_bounds s then set_gameState GAME_OVER s
  else if hits_pipe (bird_y s) (pipes s) then set_gameState GAME_OVER s
  else s.

(** The blocks of [updateGameLogic], in source order. *)

(* --- Handle Input (Flap) --- *)
Definition handle_input (inp : Input) (s : Vars) : Vars :=
  let button_is_pressed := any_pressed inp in
  let s := if button_is_pressed && negb (button_was_pressed s)
           then set_bird_y_velocity (F32.of_double FLAP_VELOCITY) s else s in
  set_button_was_pressed button_is_pressed s.

(* --- Bird Physics --- *)
Definition bird_physics (s : Vars) : Vars :=
  let s := set_bird_y_velocity
             (F32.of_double (F64.add (F32.to_double (bird_y_velocity s)) GRAVITY)) s in
  set_bird_y (F32.add (bird_y s) (bird_y_velocity s)) s.

(* --- Pipe Logic ---: the body of the loop for one slot. It reads and
   writes [score], [highScore] and the random source in [s]; the slot is
   written back by [pipe_logic]. *)
Definition move_pipe (p : Pipe) : Pipe :=
  mkPipe (Int32.sub (x p) PIPE_SPEED) (gap_y p) (scored p).

Definition off_screen (p : Pipe) : bool := x p <? - PIPE_WIDTH.

Definition recycle_pipe (p : Pipe) (s : Vars) : Pipe * Vars :=
  if off_screen p
  then let (gy, g) := random2 gap_lo gap_hi (rng s) in
       (mkPipe SCREEN_WIDTH gy false, set_rng g s)
  else (p, s).

Definition passed (p : Pipe) : bool :=
  negb (scored p) && (Int32.add (x p) PIPE_WIDTH <? BIRD_X_POS).

Definition score_pipe (p : Pipe) (s : Vars) : Pipe * Vars :=
  if passed p
  then let s := set_score (Int32.incr (score s)) s in
       (mkPipe (x p) (gap_y p) true,
        if highScore s <? score s then set_highScore (score s) s else s)
  else (p, s).

Definition pipe_body (p : Pipe) (s : Vars) : Pipe * Vars :=
  let (p1, s1) := recycle_pipe (move_pipe p) s in
  score_pipe p1 s1.

Fixpoint pipe_loop (slots : list Pipe) (s : Vars) : list Pipe * Vars :=
  match slots with
  | [] => ([], s)
  | p :: rest =>
      let (p', s1) := pipe_body p s in
      let (rest', s2) := pipe_loop rest s1 in
      (p' :: rest', s2)
  end.

Definition pipe_logic (s : Vars) : Vars :=
  let (ps, s') := pipe_loop (pipes s) s in set_pipes ps s'.

(** The state in which [checkCollisions] is called, and the whole of
    [updateGameLogic]. *)
Definition before_collisions (inp : Input) (s : Vars) : Vars :=
  pipe_logic (bird_physics (handle_input inp s)).

Definition updateGameLogic (inp : Input) (s : Vars) : Vars :=
  checkCollisions (before_collisions inp s).

(** One iteration of [loop], up to the busy wait when it enters one. *)
Definition loop (inp : Input) (s : Vars) : Control * Vars :=
  match gameState s with
  | START_SCREEN =>
      if any_pressed inp then (AwaitRelease, set_gameState PLAYING s) else (AtLoop, s)
  | PLAYING => (AtLoop, updateGameLogic inp s)
  | GAME_OVER =>
      if any_pressed inp
      then (AwaitRelease, set_gameState PLAYING (setupGame s))
      else (AtLoop, s)
  end.

(** The running sketch: one sample of the pins is consumed per iteration
    of [loop], and per poll of the busy wait. *)
Definition step (inp : Input) (m : Control * Vars) : Control * Vars :=
  match fst m with
  | AwaitRelease => if any_pressed inp then m else (AtLoop, snd m)
  | AtLoop => loop inp (snd m)
  end.

(** The globals as initialised at their declaration. *)
Definition globals (g : Rng) : Vars :=
  mkVars START_SCREEN (repeat (mkPipe 0 0 false) NUM_PIPES) F32.zero F32.zero 0 0 false g.

(** [setup()]; [g] is the sequence the seeded generator will give. *)
Definition setup (g : Rng) : Control * Vars := (AtLoop, setupGame (globals g)).

Definition run (g : Rng) (inputs : list Input) : Control * Vars :=
  fold_left (fun m inp => step inp m) inputs (setup g).

(** The states the sketch can be in. *)
Inductive reachable : Control * Vars -> Prop :=
  | reach_setup : forall g, reachable (setup g)
  | reach_step : forall inp m, reachable m -> reachable (step inp m).

(** The scoring test of the loop body, as it comes out for slot [p]. *)
Definition fires (p : Pipe) (s : Vars) : bool :=
  passed (fst (recycle_pipe (move_pipe p) s)).


(** Gap centres as [random(gap_lo, gap_hi)] gives them. *)
Definition gap_ok (p : Pipe) : Prop := gap_lo <= gap_y p < gap_hi.

(** The two pipes sit at even positions, PIPE_SPACING apart, or
    PIPE_SPACING + PIPE_SPEED once slot 0 has been recycled behind slot 1. *)
Definition spaced (x0 x1 : Z) : Prop :=
  (exists k, x0 = 2 * k)
  /\ ((x1 = x0 + PIPE_SPACING /\ - PIPE_WIDTH <= x0 <= SCREEN_WIDTH)
      \/ (x1 = x0 - (PIPE_SPACING + PIPE_SPEED)
          /\ - PIPE_WIDTH <= x1 /\ x0 <= SCREEN_WIDTH)).

Definition pipes_ok (s : Vars) : Prop :=
  exists p0 p1,
    pipes s = [p0; p1] /\ gap_ok p0 /\ gap_ok p1 /\ spaced (x p0) (x p1).

(** What the pipe loop leaves alone, and the one way it moves [highScore]. *)
Definition steady (s s' : Vars) : Prop :=
  gameState s' = gameState s
  /\ bird_y s' = bird_y s
  /\ bird_y_velocity s' = bird_y_velocity s
  /\ button_was_pressed s' = button_was_pressed s
  /\ highScore s <= highScore s'.

(** The entity state of a fresh game. *)
Definition fresh (s : Vars) : Prop :=
  score s = 0
  /\ bird_y s = F32.of_int (Z.quot SCREEN_HEIGHT 2)
  /\ bird_y_velocity s = F32.of_int 0
  /\ exists gy0 gy1,
       pipes s = [mkPipe SCREEN_WIDTH gy0 false;
                  mkPipe (SCREEN_WIDTH + PIPE_SPACING) gy1 false]
       /\ gap_lo <= gy0 < gap_hi /\ gap_lo <= gy1 < gap_hi.

(** The bird's velocity after one tick's gravity. *)
Definition fall (v : spec_float) : spec_float :=
  F32.of_double (F64.add (F32.to_double v) GRAVITY).

(** A game in which the switch is pressed on the first tick and held until
    the bird hits the ground, and its continuation through the restart: the
    press on the game-over screen and the release the busy wait waits for. *)
Definition held_until_crash : list Input :=
  [press_left; idle] ++ repeat press_left 42.
Definition crashed : Control * Vars := run [] held_until_crash.
Definition restarted : Control * Vars :=
  run [] (held_until_crash ++ [press_left; idle]).

End Flappy.

(** * Facts about the arithmetic *)

Section RoundingFacts.

Variables prec emax : Z.

Lemma shr_1_nonneg (mrs : shr_record) :
  0 <= shr_m mrs -> 0 <= shr_m (shr_1 mrs).
Proof.
  destruct mrs as [m r t]; simpl.
  destruct m as [|p|p]; simpl; try lia; destruct p; simpl; lia.
Qed.

Lemma iter_shr_1_nonneg (p : positive) :
  forall mrs, 0 <= shr_m mrs -> 0 <= shr_m (iter_pos shr_1 p mrs).
Proof.
  induction p as [p IH|p IH|]; intros mrs H; simpl.
  - apply IH, IH, shr_1_nonneg, H.
  - apply IH, IH, H.
  - apply shr_1_nonneg, H.
Qed.

Lemma shr_record_of_loc_m (m : Z) (l : location) :
  shr_m (shr_record_of_loc m l) = m.
Proof. destruct l as [|[ | | ]]; reflexivity. Qed.

Lemma shr_fexp_nonneg (m e : Z) (l : location) :
  0 <= m -> 0 <= shr_m (fst (shr_fexp prec emax m e l)).
Proof.
  intros H. unfold shr_fexp, shr.
  destruct (fexp prec emax (Zdigits2 m + e) - e) as [|p|p]; simpl;
    try (rewrite shr_record_of_loc_m; exact H).
  apply iter_shr_1_nonneg. rewrite shr_record_of_loc_m. exact H.
Qed.

Lemma round_nearest_even_nonneg (m : Z) (l : location) :
  0 <= m -> 0 <= round_nearest_even m l.
Proof.
  intros H. destruct l as [|[ | | ]]; simpl; try lia.
  destruct (Z.even m); lia.
Qed.

(** Rounding a non-negative mantissa gives a zero, a finite number or an
    infinity. *)
Lemma binary_round_aux_not_nan (sx : bool) (mx ex : Z) (lx : location) :
  0 <= mx -> F32.is_nan (binary_round_aux prec emax sx mx ex lx) = false.
Proof.
  intros H. unfold binary_round_aux.
  pose proof (shr_fexp_nonneg mx ex lx H) as H1.
  destruct (shr_fexp prec emax mx ex lx) as [mrs' e'] eqn:E1. simpl in H1.
  pose proof (shr_fexp_nonneg _ e' loc_Exact
                (round_nearest_even_nonneg _ (loc_of_shr_record mrs') H1)) as H2.
  destruct (shr_fexp prec emax _ e' loc_Exact) as [mrs'' e''] eqn:E2. simpl in H2.
  destruct (shr_m mrs'') as [|p|p]; try reflexivity.
  - destruct (e'' <=? emax - prec); reflexivity.
  - lia.
Qed.

Lemma binary_round_not_nan (sx : bool) (mx : positive) (ex : Z) :
  F32.is_nan (binary_round prec emax sx mx ex) = false.
Proof.
  unfold binary_round.
  destruct (shl_align mx ex _) as [mz ez].
  apply binary_round_aux_not_nan. lia.
Qed.

Lemma binary_normalize_not_nan (m e : Z) (sz : bool) :
  F32.is_nan (binary_normalize prec emax m e sz) = false.
Proof.
  destruct m; simpl; try reflexivity; apply binary_round_not_nan.
Qed.

(** Adding or subtracting a finite number never creates a NaN. *)
Lemma SFadd_finite_not_nan (a : spec_float) (s : bool) (m : positive) (e : Z) :
  F32.is_nan a = false -> F32.is_nan (SFadd prec emax a (S754_finite s m e)) = false.
Proof.
  destruct a as [sa|sa| |sa ma ea]; simpl; intros H; try reflexivity; try discriminate.
  apply binary_normalize_not_nan.
Qed.

Lemma SFsub_finite_not_nan (a : spec_float) (s : bool) (m : positive) (e : Z) :
  F32.is_nan a = false -> F32.is_nan (SFsub prec emax a (S754_finite s m e)) = false.
Proof.
  destruct a as [sa|sa| |sa ma ea]; simpl; intros H; try reflexivity; try discriminate.
  apply binary_normalize_not_nan.
Qed.

End RoundingFacts.

Section OrderFacts.

Lemma SFcompare_antisym (a b : spec_float) :
  SFcompare b a = option_map CompOpp (SFcompare a b).
Proof.
  destruct a as [sa|sa| |sa ma ea], b as [sb|sb| |sb mb eb]; simpl;
    try reflexivity;
    try (destruct sa; reflexivity);
    try (destruct sb; reflexivity);
    try (destruct sa, sb; reflexivity).
  f_equal. destruct sa, sb; try reflexivity.
  - rewrite (Z.compare_antisym ea eb).
    destruct (ea ?= eb); simpl; try reflexivity.
    rewrite (Pos.compare_cont_antisym mb ma Eq), CompOpp_involutive. reflexivity.
  - rewrite (Z.compare_antisym ea eb).
    destruct (ea ?= eb); simpl; try reflexivity.
    rewrite (Pos.compare_cont_antisym ma mb Eq). reflexivity.
Qed.

(** For numbers, [not (a < b)] is [b <= a]. *)
Lemma not_ltb_leb (a b : spec_float) :
  F32.is_nan a = false -> F32.is_nan b = false ->
  F32.ltb a b = false -> F32.leb b a = true.
Proof.
  unfold F32.ltb, F32.leb, SFltb, SFleb. intros Ha Hb.
  rewrite (SFcompare_antisym a b).
  destruct (SFcompare a b) as [[ | | ]|] eqn:E; simpl; try reflexivity; try discriminate.
  destruct a, b; simpl in *; discriminate.
Qed.

Lemma leb_not_nan_l (a b : spec_float) : F32.leb a b = true -> F32.is_nan a = false.
Proof. destruct a, b; simpl; try reflexivity; discriminate. Qed.

End OrderFacts.

Lemma to_double_not_nan (a : spec_float) :
  F32.is_nan a = false -> F32.is_nan (F32.to_double a) = false.
Proof.
  destruct a; simpl; intros H; try reflexivity; try discriminate.
  apply binary_round_not_nan.
Qed.

Lemma of_double_not_nan (a : spec_float) :
  F32.is_nan a = false -> F32.is_nan (F32.of_double a) = false.
Proof.
  destruct a; simpl; intros H; try reflexivity; try discriminate.
  apply binary_round_not_nan.
Qed.

Lemma wrap_in_range (z : Z) : Int32.in_range z -> Int32.wrap z = z.
Proof.
  unfold Int32.in_range, Int32.min_signed, Int32.max_signed, Int32.wrap. intros H.
  rewrite Z.mod_small; lia.
Qed.

Lemma incr_in_range (z : Z) :
  Int32.min_signed <= z < Int32.max_signed -> Int32.incr z = z + 1.
Proof.
  intros H. unfold Int32.incr, Int32.add. apply wrap_in_range.
  unfold Int32.in_range. lia.
Qed.

(** * Facts about the random source *)

Lemma random1_range (n : Z) (g : Rng) : 0 < n -> 0 <= fst (random1 n g) < n.
Proof.
  intros H. unfold random1.
  destruct (n =? 0) eqn:E; [apply Z.eqb_eq in E; lia|].
  destruct (raw_draw g) as [r g']. simpl. apply Z.mod_pos_bound. exact H.
Qed.

Lemma random2_range (lo hi : Z) (g : Rng) :
  lo < hi -> lo <= fst (random2 lo hi g) < hi.
Proof.
  intros H. unfold random2.
  destruct (hi <=? lo) eqn:E; [apply Z.leb_le in E; lia|].
  pose proof (random1_range (hi - lo) g ltac:(lia)) as B.
  destruct (random1 (hi - lo) g) as [r g']. simpl in *. lia.
Qed.

(** * The paddle-ball sketch: facts *)

Section PongFacts.
Import Pong.

Ltac fields :=
  cbn [gameState player_x ai_x ball_x ball_y ball_vx ball_vy playerScore aiScore rng
       set_gameState set_player_x set_ai_x set_ball_x set_ball_y set_ball_vx
       set_ball_vy set_playerScore set_aiScore set_rng fst snd] in *.

Ltac split_if :=
  match goal with |- context [if ?c then _ else _] => destruct c eqn:? end.

(** ** Serving and resetting *)

Lemma serveBall_eq (d : Z) (s : Vars) :
  exists vx g,
    In vx [2; 3; -2; -3] /\
    serveBall d s =
      mkVars (gameState s) (player_x s) (ai_x s) (F32.of_int 160) (F32.of_int 85)
             (F32.of_int vx) (F32.of_int (Int32.mul 3 d))
             (playerScore s) (aiScore s) g.
Proof.
  unfold serveBall.
  pose proof (random2_range 2 4 (rng s) ltac:(lia)) as B.
  destruct (random2 2 4 (rng s)) as [speed g1]. simpl in B.
  destruct (random1 2 g1) as [coin g2].
  exists (Int32.mul speed (if coin =? 0 then 1 else -1)), g2. split.
  - assert (speed = 2 \/ speed = 3) as [-> | ->] by lia;
      destruct (coin =? 0); vm_compute; tauto.
  - reflexivity.
Qed.

Lemma resetGame_eq (s : Vars) :
  exists vx d g,
    In vx [2; 3; -2; -3] /\ In d [1; -1] /\
    resetGame s =
      mkVars (gameState s) (F32.of_int 120) (F32.of_int 120)
             (F32.of_int 160) (F32.of_int 85)
             (F32.of_int vx) (F32.of_int (3 * d)) 0 0 g.
Proof.
  unfold resetGame. cbv zeta. fields.
  destruct (random1 2 (rng s)) as [coin g0].
  match goal with |- context [serveBall ?d ?t] =>
    destruct (serveBall_eq d t) as (vx & g & Hvx & ->) end.
  exists vx, (if coin =? 0 then 1 else -1), g. fields.
  split; [exact Hvx|]. split; [destruct (coin =? 0); simpl; tauto|].
  destruct (coin =? 0); reflexivity.
Qed.

Lemma serveBall_served (d : Z) (s : Vars) :
  In d [1; -1] -> served d (serveBall d s).
Proof.
  intros Hd. destruct (serveBall_eq d s) as (vx & g & Hvx & ->).
  unfold served. fields. repeat split.
  - destruct Hd as [<- | [<- | []]]; reflexivity.
  - exists vx. split; [exact Hvx | reflexivity].
Qed.

(** ** What each block of [updateGameLogic] leaves alone *)

Lemma player_input_keeps (inp : Input) (s : Vars) :
  bookkeeping (player_input inp s) = bookkeeping s.
Proof. unfold player_input. cbv zeta. repeat split_if; reflexivity. Qed.

Lemma constrain_player_keeps (s : Vars) :
  bookkeeping (constrain_player s) = bookkeeping s.
Proof. unfold constrain_player. cbv zeta. repeat split_if; reflexivity. Qed.

Lemma ai_logic_keeps (s : Vars) : bookkeeping (ai_logic s) = bookkeeping s.
Proof. unfold ai_logic. cbv zeta. repeat split_if; reflexivity. Qed.

Lemma constrain_ai_keeps (s : Vars) : bookkeeping (constrain_ai s) = bookkeeping s.
Proof. unfold constrain_ai. cbv zeta. repeat split_if; reflexivity. Qed.

Lemma move_ball_keeps (s : Vars) :
  bookkeeping (move_ball s) = bookkeeping s /\ paddles (move_ball s) = paddles s.
Proof. split; reflexivity. Qed.

Lemma wall_collision_keeps (s : Vars) :
  bookkeeping (wall_collision s) = bookkeeping s
  /\ paddles (wall_collision s) = paddles s.
Proof. unfold wall_collision. split_if; split; reflexivity. Qed.

Lemma player_collision_keeps (s : Vars) :
  bookkeeping (player_collision s) = bookkeeping s
  /\ paddles (player_collision s) = paddles s.
Proof. unfold player_collision. split_if; split; reflexivity. Qed.

Lemma ai_collision_keeps (s : Vars) :
  bookkeeping (ai_collision s) = bookkeeping s
  /\ paddles (ai_collision s) = paddles s.
Proof. unfold ai_collision. split_if; split; reflexivity. Qed.

Lemma before_scoring_keeps (inp : Input) (s : Vars) :
  bookkeeping (before_scoring inp s) = bookkeeping s.
Proof.
  unfold before_scoring, before_paddles, before_wall.
  rewrite (proj1 (ai_collision_keeps _)), (proj1 (player_collision_keeps _)),
    (proj1 (wall_collision_keeps _)), (proj1 (move_ball_keeps _)),
    constrain_ai_keeps, ai_logic_keeps, constrain_player_keeps.
  apply player_input_keeps.
Qed.

Lemma before_scoring_paddles (inp : Input) (s : Vars) :
  paddles (before_scoring inp s)
  = paddles (constrain_ai (ai_logic (constrain_player (player_input inp s)))).
Proof.
  unfold before_scoring, before_paddles, before_wall.
  rewrite (proj2 (ai_collision_keeps _)), (proj2 (player_collision_keeps _)),
    (proj2 (wall_collision_keeps _)), (proj2 (move_ball_keeps _)).
  reflexivity.
Qed.

Lemma ai_blocks_keep_player (s : Vars) :
  player_x (constrain_ai (ai_logic s)) = player_x s.
Proof.
  unfold constrain_ai, ai_logic. cbv zeta. repeat split_if; reflexivity.
Qed.

Lemma player_blocks_keep_ai (inp : Input) (s : Vars) :
  ai_x (constrain_player (player_input inp s)) = ai_x s.
Proof.
  unfold constrain_player, player_input. cbv zeta. repeat split_if; reflexivity.
Qed.

Lemma scoring_keeps (s : Vars) :
  gameState (player_scores (ai_scores s)) = gameState s
  /\ paddles (player_scores (ai_scores s)) = paddles s.
Proof.
  unfold player_scores, ai_scores.
  destruct (ball_below s).
  - destruct (serveBall_eq (-1) (set_aiScore (Int32.incr (aiScore s)) s))
      as (vx & g & _ & ->).
    split_if.
    + match goal with |- context [serveBall 1 ?t] =>
        destruct (serveBall_eq 1 t) as (vx' & g' & _ & ->) end.
      split; reflexivity.
    + split; reflexivity.
  - split_if.
    + destruct (serveBall_eq 1 (set_playerScore (Int32.incr (playerScore s)) s))
        as (vx & g & _ & ->).
      split; reflexivity.
    + split; reflexivity.
Qed.

Lemma bookkeeping_eq (t s : Vars) :
  bookkeeping t = bookkeeping s ->
  gameState t = gameState s /\ playerScore t = playerScore s
  /\ aiScore t = aiScore s /\ rng t = rng s.
Proof. unfold bookkeeping. intros H. injection H. auto. Qed.

Lemma paddles_eq (t s : Vars) :
  paddles t = paddles s -> player_x t = player_x s /\ ai_x t = ai_x s.
Proof. unfold paddles. intros H. injection H. auto. Qed.

Lemma updateGameLogic_gameState (inp : Input) (s : Vars) :
  gameState (updateGameLogic inp s) = gameState s.
Proof.
  unfold updateGameLogic.
  destruct (scoring_keeps (before_scoring inp s)) as [-> _].
  apply (bookkeeping_eq _ _ (before_scoring_keeps inp s)).
Qed.

(** ** The paddles *)

Lemma clamp_on_screen (v : spec_float) :
  F32.is_nan v = false ->
  paddle_on_screen
    (let v1 := if F32.ltb v (F32.of_int 0) then F32.of_int 0 else v in
     if F32.ltb (F32.of_int (SCREEN_WIDTH - PADDLE_WIDTH)) v1
     then F32.of_int (SCREEN_WIDTH - PADDLE_WIDTH) else v1).
Proof.
  intros Hn. unfold paddle_on_screen. cbv zeta.
  destruct (F32.ltb v (F32.of_int 0)) eqn:E0.
  - vm_compute. split; reflexivity.
  - destruct (F32.ltb (F32.of_int (SCREEN_WIDTH - PADDLE_WIDTH)) v) eqn:E1.
    + vm_compute. split; reflexivity.
    + split; apply not_ltb_leb; trivial.
Qed.

Lemma constrain_player_on_screen (s : Vars) :
  F32.is_nan (player_x s) = false -> paddle_on_screen (player_x (constrain_player s)).
Proof.
  intros H. generalize (clamp_on_screen _ H). unfold constrain_player. cbv zeta.
  destruct (F32.ltb (player_x s) (F32.of_int 0)); fields; split_if; fields; trivial.
Qed.

Lemma constrain_ai_on_screen (s : Vars) :
  F32.is_nan (ai_x s) = false -> paddle_on_screen (ai_x (constrain_ai s)).
Proof.
  intros H. generalize (clamp_on_screen _ H). unfold constrain_ai. cbv zeta.
  destruct (F32.ltb (ai_x s) (F32.of_int 0)); fields; split_if; fields; trivial.
Qed.

Lemma player_input_not_nan (inp : Input) (s : Vars) :
  F32.is_nan (player_x s) = false -> F32.is_nan (player_x (player_input inp s)) = false.
Proof.
  intros H. unfold player_input. cbv zeta.
  assert (Hs : forall v, F32.is_nan v = false ->
                 F32.is_nan (F32.sub v (F32.of_int PADDLE_SPEED)) = false)
    by (intros v Hv; apply SFsub_finite_not_nan, Hv).
  assert (Ha : forall v, F32.is_nan v = false ->
                 F32.is_nan (F32.add v (F32.of_int PADDLE_SPEED)) = false)
    by (intros v Hv; apply SFadd_finite_not_nan, Hv).
  destruct (left_pressed inp), (right_pressed inp); fields; auto.
Qed.

Lemma ai_logic_not_nan (s : Vars) :
  F32.is_nan (ai_x s) = false -> F32.is_nan (ai_x (ai_logic s)) = false.
Proof.
  intros H. unfold ai_logic. cbv zeta.
  assert (Hs : forall v, F32.is_nan v = false ->
                 F32.is_nan (sub_double v ai_speed) = false).
  { intros v Hv. apply of_double_not_nan.
    apply (SFsub_finite_not_nan F64.prec F64.emax), to_double_not_nan, Hv. }
  assert (Ha : forall v, F32.is_nan v = false ->
                 F32.is_nan (add_double v ai_speed) = false).
  { intros v Hv. apply of_double_not_nan.
    apply (SFadd_finite_not_nan F64.prec F64.emax), to_double_not_nan, Hv. }
  destruct (F32.ltb (ai_x s) _); fields; split_if; fields; auto.
Qed.

(** One update puts both paddles on the screen, whatever the inputs, as soon
    as their positions were numbers. *)
Lemma updateGameLogic_paddles (inp : Input) (s : Vars) :
  F32.is_nan (player_x s) = false -> F32.is_nan (ai_x s) = false ->
  paddles_on_screen (updateGameLogic inp s).
Proof.
  intros Hp Ha. unfold updateGameLogic, paddles_on_screen.
  destruct (scoring_keeps (before_scoring inp s)) as [_ E].
  rewrite before_scoring_paddles in E.
  apply paddles_eq in E. destruct E as [-> ->].
  rewrite ai_blocks_keep_player.
  split.
  - apply constrain_player_on_screen, player_input_not_nan, Hp.
  - apply constrain_ai_on_screen, ai_logic_not_nan.
    rewrite player_blocks_keep_ai. exact Ha.
Qed.

Lemma paddles_on_screen_set_gameState (st : GameState) (s : Vars) :
  paddles_on_screen s -> paddles_on_screen (set_gameState st s).
Proof. intros H. exact H. Qed.

Lemma resetGame_paddles (s : Vars) : paddles_on_screen (resetGame s).
Proof.
  destruct (resetGame_eq s) as (vx & d & g & _ & _ & ->).
  unfold paddles_on_screen, paddle_on_screen. fields.
  vm_compute. repeat split.
Qed.

Lemma step_paddles (inp : Input) (m : Control * Vars) :
  paddles_on_screen (snd m) -> paddles_on_screen (snd (step inp m)).
Proof.
  intros H. destruct m as [c s]. unfold step. fields. destruct c.
  - unfold loop. destruct (gameState s).
    + destruct (any_pressed inp); fields; [apply resetGame_paddles | exact H].
    + fields. destruct H as [[_ Hp] [_ Ha]].
      apply leb_not_nan_l in Hp. apply leb_not_nan_l in Ha.
      destruct (win_reached _);
        [apply paddles_on_screen_set_gameState|];
        apply updateGameLogic_paddles; assumption.
    + destruct (any_pressed inp); fields; [apply resetGame_paddles | exact H].
  - destruct (any_pressed inp); exact H.
Qed.

Lemma reachable_paddles (m : Control * Vars) :
  reachable m -> paddles_on_screen (snd m).
Proof.
  induction 1 as [g | inp m _ IH].
  - unfold setup. fields. apply resetGame_paddles.
  - apply step_paddles, IH.
Qed.

Lemma run_reachable (g : Rng) (inputs : list Input) : reachable (run g inputs).
Proof.
  unfold run. induction inputs as [|inp inputs IH] using rev_ind.
  - apply reach_setup.
  - rewrite fold_left_app. simpl. apply reach_step, IH.
Qed.

(** ** The ball's velocity *)





(** ** Scoring *)

Lemma below_not_above (y : spec_float) :
  F32.ltb (F32.of_int SCREEN_HEIGHT) y = true -> F32.ltb y (F32.of_int 0) = false.
Proof.
  destruct y as [[ | ]|[ | ]| |[ | ] m e]; cbn; intros H; try reflexivity; discriminate.
Qed.

Lemma scoring_cases (b : Vars) :
  (ball_below b = true /\ ball_above b = false
   /\ player_scores (ai_scores b)
      = serveBall (-1) (set_aiScore (Int32.incr (aiScore b)) b))
  \/ (ball_below b = false /\ ball_above b = true
      /\ player_scores (ai_scores b)
         = serveBall 1 (set_playerScore (Int32.incr (playerScore b)) b))
  \/ (ball_below b = false /\ ball_above b = false
      /\ player_scores (ai_scores b) = b).
Proof.
  unfold player_scores, ai_scores.
  destruct (ball_below b) eqn:Eb.
  - left. split; [reflexivity|]. split; [apply below_not_above, Eb|].
    destruct (serveBall_eq (-1) (set_aiScore (Int32.incr (aiScore b)) b))
      as (vx & g & _ & ->).
    reflexivity.
  - right. destruct (ball_above b) eqn:Ea; [left | right]; repeat split.
Qed.

(** ** The session state machine *)

Lemma win_reached_iff (s : Vars) :
  win_reached s = true <-> WINNING_SCORE <= playerScore s \/ WINNING_SCORE <= aiScore s.
Proof.
  unfold win_reached. rewrite orb_true_iff, !Z.leb_le. reflexivity.
Qed.

Lemma step_over_means_won (inp : Input) (m : Control * Vars) :
  over_means_won (snd m) -> over_means_won (snd (step inp m)).
Proof.
  destruct m as [c s]. unfold step. cbn [fst snd]. intros H. destruct c.
  - unfold loop. destruct (gameState s) eqn:Eg.
    + destruct (any_pressed inp); cbn [snd]; [|exact H].
      generalize (resetGame s). intros r Ho. discriminate Ho.
    + cbn [snd]. pose proof (updateGameLogic_gameState inp s) as Eu.
      rewrite Eg in Eu. revert Eu. generalize (updateGameLogic inp s). intros u Eu.
      destruct (win_reached u) eqn:Ew.
      * intros _. apply win_reached_iff in Ew. exact Ew.
      * intros Ho. rewrite Eu in Ho. discriminate Ho.
    + destruct (any_pressed inp); cbn [snd]; [|exact H].
      generalize (resetGame s). intros r Ho. discriminate Ho.
  - destruct (any_pressed inp); exact H.
Qed.

Lemma reachable_over_means_won (m : Control * Vars) :
  reachable m -> over_means_won (snd m).
Proof.
  induction 1 as [g | inp m _ IH].
  - intros Ho. discriminate Ho.
  - apply step_over_means_won, IH.
Qed.

Lemma start_to_playing (inp : Input) (s : Vars) :
  gameState s = START_SCREEN ->
  (any_pressed inp = false -> loop inp s = (AtLoop, s))
  /\ (any_pressed inp = true ->
      exists s', loop inp s = (AwaitRelease, s')
        /\ gameState s' = PLAYING
        /\ playerScore s' = 0 /\ aiScore s' = 0
        /\ player_x s' = F32.of_int (Z.quot (SCREEN_WIDTH - PADDLE_WIDTH) 2)
        /\ ai_x s' = F32.of_int (Z.quot (SCREEN_WIDTH - PADDLE_WIDTH) 2)
        /\ (served 1 s' \/ served (-1) s')
        /\ forall inp', snd (step inp' (AwaitRelease, s')) = s').
Proof.
  intros Eg. unfold loop. rewrite Eg. split; intros ->; [reflexivity|].
  destruct (resetGame_eq s) as (vx & d & g & Hvx & Hd & ->).
  eexists. split; [reflexivity|]. cbn [set_gameState]. fields.
  repeat split.
  - unfold served. fields.
    destruct Hd as [<- | [<- | []]]; [left | right]; repeat split;
      exists vx; (split; [exact Hvx | reflexivity]).
  - intros inp'. unfold step. cbn [fst snd]. destruct (any_pressed inp'); reflexivity.
Qed.

(** ** The claims *)

(** C5. In every state the sketch can reach, whatever the sequence of pin
    samples (and so however long a switch is held), the player's paddle x and
    the AI paddle x lie in [0, SCREEN_WIDTH - PADDLE_WIDTH] = [0, 240]; and
    they do so after one more [updateGameLogic] under any input. *)
Theorem C5_paddles_within_screen (g : Rng) (inputs : list Input) (inp : Input) :
  paddles_on_screen (snd (run g inputs))
  /\ paddles_on_screen (updateGameLogic inp (snd (run g inputs))).
Proof.
  pose proof (reachable_paddles _ (run_reachable g inputs)) as H.
  split; [exact H|].
  destruct H as [[_ Hp] [_ Ha]].
  apply updateGameLogic_paddles; eapply leb_not_nan_l; eassumption.
Qed.

(** C3. In a Playing iteration, [loop] leaves the scores as [updateGameLogic]
    computed them and moves to GAME_OVER exactly when one of them has reached
    WINNING_SCORE = 5, staying in PLAYING otherwise; and no reachable state is
    GAME_OVER with both scores below 5. *)
Theorem C3_game_over_iff_winning_score :
  (forall inp s, gameState s = PLAYING ->
     let u := updateGameLogic inp s in
     let s' := snd (loop inp s) in
     playerScore s' = playerScore u /\ aiScore s' = aiScore u
     /\ (gameState s' = GAME_OVER
         <-> WINNING_SCORE <= playerScore u \/ WINNING_SCORE <= aiScore u)
     /\ (gameState s' <> GAME_OVER -> gameState s' = PLAYING))
  /\ (forall m, reachable m -> gameState (snd m) = GAME_OVER ->
        WINNING_SCORE <= playerScore (snd m) \/ WINNING_SCORE <= aiScore (snd m)).
Proof.
  split; [|exact reachable_over_means_won].
  intros inp s Eg. cbv zeta. unfold loop. rewrite Eg. cbn [snd].
  pose proof (updateGameLogic_gameState inp s) as Eu. rewrite Eg in Eu.
  revert Eu. generalize (updateGameLogic inp s). intros u Eu.
  rewrite <- win_reached_iff.
  destruct (win_reached u); fields; repeat split; try reflexivity;
    try (intros; discriminate); try congruence.
Qed.

Lemma C3_witness :
  gameState (ball_leaving 4 []) = PLAYING
  /\ gameState (snd (loop idle (ball_leaving 4 []))) = GAME_OVER
  /\ WINNING_SCORE <= aiScore (updateGameLogic idle (ball_leaving 4 [])).
Proof.
  split; [reflexivity|].
  destruct (proj1 C3_game_over_iff_winning_score idle (ball_leaving 4 []) eq_refl)
    as (_ & _ & H & _).
  assert (W : WINNING_SCORE <= aiScore (updateGameLogic idle (ball_leaving 4 [])))
    by (vm_compute; discriminate).
  split; [apply H; right; exact W | exact W].
Defined.

(** C6. In one tick exactly one of three things happens: the ball is below
    the screen ([ball_y > SCREEN_HEIGHT]), the AI score alone goes up by one
    and the ball is served toward the AI; or the ball is above the screen
    ([ball_y < 0]), the player's score alone goes up by one and the ball is
    served toward the player; or neither test fires and no score changes. A
    serve puts the ball at (160, 85) with horizontal speed 2 or 3 either way
    and vertical speed 3 signed by the direction. *)
Theorem C6_one_score_per_exit (inp : Input) (s : Vars) :
  Int32.min_signed <= playerScore s < Int32.max_signed ->
  Int32.min_signed <= aiScore s < Int32.max_signed ->
  let b := before_scoring inp s in
  let s' := updateGameLogic inp s in
  (ball_below b = true /\ ball_above b = false
   /\ aiScore s' = aiScore s + 1 /\ playerScore s' = playerScore s
   /\ served (-1) s')
  \/ (ball_below b = false /\ ball_above b = true
      /\ playerScore s' = playerScore s + 1 /\ aiScore s' = aiScore s
      /\ served 1 s')
  \/ (ball_below b = false /\ ball_above b = false
      /\ playerScore s' = playerScore s /\ aiScore s' = aiScore s
      /\ s' = b).
Proof.
  intros Hp Ha. cbv zeta. unfold updateGameLogic.
  destruct (bookkeeping_eq _ _ (before_scoring_keeps inp s)) as (_ & Ep & Ea & _).
  revert Ep Ea. generalize (before_scoring inp s). intros b Ep Ea.
  destruct (scoring_cases b) as [(Hb & Hn & ->) | [(Hb & Hn & ->) | (Hb & Hn & ->)]].
  - left. split; [exact Hb|]. split; [exact Hn|].
    pose proof (serveBall_served (-1) (set_aiScore (Int32.incr (aiScore b)) b)
                  ltac:(simpl; tauto)) as Hs.
    destruct (serveBall_eq (-1) (set_aiScore (Int32.incr (aiScore b)) b))
      as (vx & g & _ & E).
    rewrite E in *. fields. rewrite Ea, Ep, incr_in_range by exact Ha.
    repeat split; try reflexivity; apply Hs.
  - right. left. split; [exact Hb|]. split; [exact Hn|].
    pose proof (serveBall_served 1 (set_playerScore (Int32.incr (playerScore b)) b)
                  ltac:(simpl; tauto)) as Hs.
    destruct (serveBall_eq 1 (set_playerScore (Int32.incr (playerScore b)) b))
      as (vx & g & _ & E).
    rewrite E in *. fields. rewrite Ea, Ep, incr_in_range by exact Hp.
    repeat split; try reflexivity; apply Hs.
  - right. right. repeat split; assumption.
Qed.

Lemma C6_witness :
  aiScore (updateGameLogic idle (ball_leaving 2 [1%N; 1%N])) = 3
  /\ playerScore (updateGameLogic idle (ball_leaving 2 [1%N; 1%N])) = 0
  /\ served (-1) (updateGameLogic idle (ball_leaving 2 [1%N; 1%N])).
Proof.
  assert (Hp : Int32.min_signed <= playerScore (ball_leaving 2 [1%N; 1%N])
               < Int32.max_signed)
    by (unfold ball_leaving, Int32.min_signed, Int32.max_signed; fields; lia).
  assert (Ha : Int32.min_signed <= aiScore (ball_leaving 2 [1%N; 1%N])
               < Int32.max_signed)
    by (unfold ball_leaving, Int32.min_signed, Int32.max_signed; fields; lia).
  destruct (C6_one_score_per_exit idle (ball_leaving 2 [1%N; 1%N]) Hp Ha)
    as [(_ & _ & E1 & E2 & E3) | [(Hb & _) | (Hb & _)]].
  - split; [exact E1 | split; [exact E2 | exact E3]].
  - vm_compute in Hb. discriminate Hb.
  - vm_compute in Hb. discriminate Hb.
Defined.




End PongFacts.

(** * The obstacle runner: facts *)

Section FlappyFacts.
Import Flappy.

Ltac fields :=
  cbn [gameState pipes bird_y bird_y_velocity score highScore button_was_pressed rng
       set_gameState set_pipes set_bird_y set_bird_y_velocity set_score
       set_highScore set_button_was_pressed set_rng x gap_y scored fst snd] in *.

Ltac split_if :=
  match goal with |- context [if ?c then _ else _] => destruct c eqn:? end.

Lemma gap_draw (g : Rng) : gap_lo <= fst (random2 gap_lo gap_hi g) < gap_hi.
Proof. apply random2_range. vm_compute. reflexivity. Qed.

(** ** Setting a game up *)

Lemma setupGame_eq (s : Vars) (a b : Pipe) :
  pipes s = [a; b] ->
  exists gy0 gy1 g,
    gap_lo <= gy0 < gap_hi /\ gap_lo <= gy1 < gap_hi /\
    setupGame s =
      mkVars (gameState s)
             [mkPipe SCREEN_WIDTH gy0 false;
              mkPipe (SCREEN_WIDTH + PIPE_SPACING) gy1 false]
             (F32.of_int (Z.quot SCREEN_HEIGHT 2)) (F32.of_int 0) 0
             (highScore s) (button_was_pressed s) g.
Proof.
  intros E. unfold setupGame. cbv zeta. fields. rewrite E.
  cbn [init_pipes].
  pose proof (gap_draw (rng s)) as B0.
  destruct (random2 gap_lo gap_hi (rng s)) as [gy0 g0].
  pose proof (gap_draw g0) as B1.
  destruct (random2 gap_lo gap_hi g0) as [gy1 g1].
  exists gy0, gy1, g1. fields. repeat split; try apply B0; try apply B1.
Qed.

Lemma setupGame_fresh (s : Vars) (a b : Pipe) :
  pipes s = [a; b] -> fresh (setupGame s) /\ pipes_ok (setupGame s).
Proof.
  intros E. destruct (setupGame_eq s a b E) as (gy0 & gy1 & g & B0 & B1 & ->).
  split.
  - unfold fresh. fields. repeat split. exists gy0, gy1. repeat split; tauto.
  - unfold pipes_ok. fields. do 2 eexists. split; [reflexivity|].
    unfold gap_ok, spaced. fields.
    split; [exact B0|]. split; [exact B1|]. split; [exists 160; reflexivity|].
    left. vm_compute. repeat split; discriminate.
Qed.

Lemma setupGame_keeps (s : Vars) :
  highScore (setupGame s) = highScore s
  /\ button_was_pressed (setupGame s) = button_was_pressed s
  /\ gameState (setupGame s) = gameState s.
Proof.
  unfold setupGame. cbv zeta. fields.
  destruct (init_pipes 0 (pipes s) (rng s)) as [ps g]. repeat split.
Qed.

(** ** The loop body for one slot *)

Lemma pipe_body_cases (p : Pipe) (s : Vars) :
  Int32.min_signed + 2 <= x p <= Int32.max_signed - 40 ->
  (x p - PIPE_SPEED < - PIPE_WIDTH /\ fires p s = false
   /\ exists gy g, gap_lo <= gy < gap_hi
        /\ pipe_body p s = (mkPipe SCREEN_WIDTH gy false, set_rng g s))
  \/ (- PIPE_WIDTH <= x p - PIPE_SPEED /\ fires p s = true
      /\ scored p = false /\ x p - PIPE_SPEED + PIPE_WIDTH < BIRD_X_POS
      /\ pipe_body p s
         = (mkPipe (x p - PIPE_SPEED) (gap_y p) true,
            mkVars (gameState s) (pipes s) (bird_y s) (bird_y_velocity s)
                   (Int32.incr (score s))
                   (Z.max (highScore s) (Int32.incr (score s)))
                   (button_was_pressed s) (rng s)))
  \/ (- PIPE_WIDTH <= x p - PIPE_SPEED /\ fires p s = false
      /\ (scored p = true \/ BIRD_X_POS <= x p - PIPE_SPEED + PIPE_WIDTH)
      /\ pipe_body p s = (mkPipe (x p - PIPE_SPEED) (gap_y p) (scored p), s)).
Proof.
  intros R.
  assert (R' : - 2 ^ 31 + 2 <= x p <= 2 ^ 31 - 1 - 40) by exact R. clear R.
  unfold fires, pipe_body, recycle_pipe, off_screen, move_pipe. fields.
  assert (E : Int32.sub (x p) PIPE_SPEED = x p - PIPE_SPEED).
  { apply wrap_in_range. unfold Int32.in_range, Int32.min_signed, Int32.max_signed,
      PIPE_SPEED. lia. }
  rewrite E.
  destruct (x p - PIPE_SPEED <? - PIPE_WIDTH) eqn:Eo.
  - left. apply Z.ltb_lt in Eo. split; [exact Eo|].
    pose proof (gap_draw (rng s)) as B.
    destruct (random2 gap_lo gap_hi (rng s)) as [gy g].
    unfold score_pipe, passed. fields. split; [reflexivity|].
    exists gy, g. split; [exact B | reflexivity].
  - right. apply Z.ltb_ge in Eo.
    unfold score_pipe, passed. fields.
    assert (E' : Int32.add (x p - PIPE_SPEED) PIPE_WIDTH = x p - PIPE_SPEED + PIPE_WIDTH).
    { apply wrap_in_range. unfold Int32.in_range, Int32.min_signed, Int32.max_signed,
        PIPE_SPEED, PIPE_WIDTH. lia. }
    rewrite E'.
    destruct (scored p) eqn:Es; cbn [negb andb].
    + right. split; [exact Eo|]. split; [reflexivity|].
      split; [left; reflexivity|].
      rewrite <- Es. reflexivity.
    + destruct (x p - PIPE_SPEED + PIPE_WIDTH <? BIRD_X_POS) eqn:Ep.
      * left. apply Z.ltb_lt in Ep. split; [exact Eo|]. split; [reflexivity|].
        split; [reflexivity|]. split; [exact Ep|].
        f_equal. destruct (highScore s <? Int32.incr (score s)) eqn:Eh.
        -- apply Z.ltb_lt in Eh. unfold set_highScore, set_score. fields.
           f_equal. lia.
        -- apply Z.ltb_ge in Eh. unfold set_score. f_equal. lia.
      * right. apply Z.ltb_ge in Ep. split; [exact Eo|]. split; [reflexivity|].
        split; [right; exact Ep|].
        rewrite <- Es. reflexivity.
Qed.

Lemma steady_refl (s : Vars) : steady s s.
Proof. unfold steady. repeat split; reflexivity. Qed.

Lemma steady_trans (s1 s2 s3 : Vars) : steady s1 s2 -> steady s2 s3 -> steady s1 s3.
Proof.
  unfold steady. intros (A1 & A2 & A3 & A4 & A5) (B1 & B2 & B3 & B4 & B5).
  repeat split; try congruence. lia.
Qed.

Lemma pipe_body_steady (p : Pipe) (s : Vars) : steady s (snd (pipe_body p s)).
Proof.
  unfold pipe_body, recycle_pipe.
  destruct (off_screen (move_pipe p)).
  - destruct (random2 gap_lo gap_hi (rng s)) as [gy g].
    unfold score_pipe, passed. fields. cbn [negb andb].
    change (Int32.add SCREEN_WIDTH PIPE_WIDTH <? BIRD_X_POS) with false.
    unfold steady. fields. repeat split. lia.
  - unfold score_pipe. destruct (passed (move_pipe p)); [|apply steady_refl].
    fields. destruct (highScore s <? Int32.incr (score s)) eqn:Eh;
      unfold steady; fields; repeat split; try reflexivity.
    apply Z.ltb_lt in Eh. lia.
Qed.

Lemma pipe_loop_steady (ps : list Pipe) :
  forall s, steady s (snd (pipe_loop ps s)).
Proof.
  induction ps as [|p ps IH]; intros s; cbn [pipe_loop].
  - apply steady_refl.
  - pose proof (pipe_body_steady p s) as H1.
    destruct (pipe_body p s) as [p' s1]. cbn [snd] in H1.
    pose proof (IH s1) as H2.
    destruct (pipe_loop ps s1) as [ps' s2]. cbn [snd] in *.
    eapply steady_trans; eassumption.
Qed.

Lemma pipe_logic_steady (s : Vars) : steady s (pipe_logic s).
Proof.
  unfold pipe_logic. pose proof (pipe_loop_steady (pipes s) s) as H.
  destruct (pipe_loop (pipes s) s) as [ps s']. exact H.
Qed.

Lemma checkCollisions_keeps (s : Vars) :
  pipes (checkCollisions s) = pipes s
  /\ highScore (checkCollisions s) = highScore s
  /\ score (checkCollisions s) = score s
  /\ button_was_pressed (checkCollisions s) = button_was_pressed s.
Proof.
  unfold checkCollisions. repeat split_if; repeat split; reflexivity.
Qed.

Lemma bird_blocks_keep (inp : Input) (s : Vars) :
  let t := bird_physics (handle_input inp s) in
  pipes t = pipes s /\ highScore t = highScore s /\ score t = score s
  /\ gameState t = gameState s /\ rng t = rng s
  /\ button_was_pressed t = any_pressed inp.
Proof.
  cbv zeta. unfold bird_physics, handle_input. cbv zeta.
  split_if; repeat split; reflexivity.
Qed.

Lemma before_collisions_gameState (inp : Input) (s : Vars) :
  gameState (before_collisions inp s) = gameState s.
Proof.
  unfold before_collisions.
  destruct (pipe_logic_steady (bird_physics (handle_input inp s))) as (-> & _).
  apply (bird_blocks_keep inp s).
Qed.

(** ** The high score *)





Lemma run_reachable_flappy (g : Rng) (inputs : list Input) : reachable (run g inputs).
Proof.
  unfold run. induction inputs as [|inp inputs IH] using rev_ind.
  - apply reach_setup.
  - rewrite fold_left_app. simpl. apply reach_step, IH.
Qed.

(** ** The pipes *)

Lemma pipe_body_ok (p : Pipe) (s : Vars) :
  - PIPE_WIDTH <= x p <= SCREEN_WIDTH + PIPE_SPACING -> gap_ok p ->
  gap_ok (fst (pipe_body p s))
  /\ x (fst (pipe_body p s))
     = (if x p - PIPE_SPEED <? - PIPE_WIDTH then SCREEN_WIDTH else x p - PIPE_SPEED).
Proof.
  intros R G.
  assert (R' : Int32.min_signed + 2 <= x p <= Int32.max_signed - 40).
  { unfold PIPE_WIDTH, SCREEN_WIDTH, PIPE_SPACING, Int32.min_signed,
      Int32.max_signed in *. lia. }
  destruct (pipe_body_cases p s R')
    as [(H & _ & gy & g & B & ->) | [(H & _ & _ & _ & ->) | (H & _ & _ & ->)]];
    cbn [fst]; unfold gap_ok; fields.
  - apply Z.ltb_lt in H. rewrite H. split; [exact B | reflexivity].
  - apply Z.ltb_ge in H. rewrite H. split; [exact G | reflexivity].
  - apply Z.ltb_ge in H. rewrite H. split; [exact G | reflexivity].
Qed.

Lemma pipe_logic_ok (s : Vars) : pipes_ok s -> pipes_ok (pipe_logic s).
Proof.
  intros (p0 & p1 & E & G0 & G1 & S). unfold pipe_logic. rewrite E.
  cbn [pipe_loop].
  assert (R0 : - PIPE_WIDTH <= x p0 <= SCREEN_WIDTH + PIPE_SPACING)
    by (unfold spaced, PIPE_WIDTH, SCREEN_WIDTH, PIPE_SPACING, PIPE_SPEED in *; lia).
  assert (R1 : - PIPE_WIDTH <= x p1 <= SCREEN_WIDTH + PIPE_SPACING)
    by (unfold spaced, PIPE_WIDTH, SCREEN_WIDTH, PIPE_SPACING, PIPE_SPEED in *; lia).
  pose proof (pipe_body_ok p0 s R0 G0) as [G0' X0].
  destruct (pipe_body p0 s) as [q0 s1]. cbn [fst] in *.
  pose proof (pipe_body_ok p1 s1 R1 G1) as [G1' X1].
  destruct (pipe_body p1 s1) as [q1 s2]. cbn [fst] in *.
  unfold pipes_ok. fields. exists q0, q1. split; [reflexivity|].
  split; [exact G0'|]. split; [exact G1'|].
  rewrite X0, X1. unfold spaced, PIPE_WIDTH, SCREEN_WIDTH, PIPE_SPACING, PIPE_SPEED in *.
  destruct S as [[k Hk] S].
  destruct (x p0 - 2 <? - (40)) eqn:E0; destruct (x p1 - 2 <? - (40)) eqn:E1;
    rewrite ?Z.ltb_lt, ?Z.ltb_ge in *;
    (split; [first [exists 160; lia | exists (k - 1); lia] | lia]).
Qed.

Lemma updateGameLogic_ok (inp : Input) (s : Vars) :
  pipes_ok s -> pipes_ok (before_collisions inp s) /\ pipes_ok (updateGameLogic inp s).
Proof.
  intros H.
  assert (H1 : pipes_ok (before_collisions inp s)).
  { unfold before_collisions. apply pipe_logic_ok.
    destruct (bird_blocks_keep inp s) as (E & _). cbv zeta in E.
    unfold pipes_ok in *. rewrite E. exact H. }
  split; [exact H1|].
  unfold updateGameLogic. revert H1. generalize (before_collisions inp s).
  intros t H1. unfold pipes_ok in *.
  destruct (checkCollisions_keeps t) as (-> & _). exact H1.
Qed.

Lemma step_ok (inp : Input) (m : Control * Vars) :
  pipes_ok (snd m) -> pipes_ok (snd (step inp m)).
Proof.
  destruct m as [c s]. unfold step. cbn [fst snd]. intros H. destruct c.
  - unfold loop. destruct (gameState s).
    + destruct (any_pressed inp); cbn [snd]; exact H.
    + cbn [snd]. apply updateGameLogic_ok, H.
    + destruct (any_pressed inp); cbn [snd]; [|exact H].
      destruct H as (p0 & p1 & E & _).
      destruct (setupGame_fresh s p0 p1 E) as [_ H]. revert H.
      generalize (setupGame s). intros t H. exact H.
  - destruct (any_pressed inp); cbn [snd]; exact H.
Qed.

Lemma reachable_ok (m : Control * Vars) : reachable m -> pipes_ok (snd m).
Proof.
  induction 1 as [g | inp m _ IH].
  - unfold setup. cbn [snd].
    apply (setupGame_fresh (globals g) (mkPipe 0 0 false) (mkPipe 0 0 false)).
    reflexivity.
  - apply step_ok, IH.
Qed.

(** ** A slot over consecutive ticks *)





(** ** Collisions *)

Lemma hits_pipe_iff (y : spec_float) (ps : list Pipe) :
  hits_pipe y ps = true
  <-> exists p, In p ps /\ aligned p = true /\ misses_gap y p = true.
Proof.
  induction ps as [|q ps IH]; cbn [hits_pipe In].
  - split; [discriminate | intros (p & [] & _)].
  - destruct (aligned q && misses_gap y q) eqn:E.
    + split; [intros _ | reflexivity].
      apply andb_true_iff in E. exists q. split; [left; reflexivity | exact E].
    + rewrite IH. split.
      * intros (p & Hin & H). exists p. split; [right; exact Hin | exact H].
      * intros (p & [<- | Hin] & Ha & Hm).
        -- rewrite Ha, Hm in E. discriminate E.
        -- exists p. repeat split; assumption.
Qed.

Lemma checkCollisions_iff (s : Vars) :
  gameState s = PLAYING ->
  (gameState (checkCollisions s) = GAME_OVER
   <-> out_of_bounds s = true \/ hits_pipe (bird_y s) (pipes s) = true)
  /\ (gameState (checkCollisions s) <> GAME_OVER ->
      gameState (checkCollisions s) = PLAYING).
Proof.
  intros Eg. unfold checkCollisions.
  destruct (out_of_bounds s); [|destruct (hits_pipe (bird_y s) (pipes s))]; fields.
  - split; [split; [left|]; reflexivity | intros C; congruence].
  - split; [split; [right|]; reflexivity | intros C; congruence].
  - rewrite Eg. split; [|reflexivity].
    split; [discriminate | intros [C | C]; discriminate C].
Qed.

Lemma aligned_iff (p : Pipe) :
  - PIPE_WIDTH <= x p <= SCREEN_WIDTH + PIPE_SPACING ->
  (aligned p = true
   <-> x p < BIRD_X_POS + BIRD_WIDTH /\ BIRD_X_POS < x p + PIPE_WIDTH).
Proof.
  intros R. unfold aligned.
  assert (E : Int32.add (x p) PIPE_WIDTH = x p + PIPE_WIDTH).
  { apply wrap_in_range. unfold Int32.in_range, Int32.min_signed, Int32.max_signed,
      PIPE_WIDTH, SCREEN_WIDTH, PIPE_SPACING in *. lia. }
  rewrite E, andb_true_iff, !Z.ltb_lt. reflexivity.
Qed.

Lemma misses_gap_iff (y : spec_float) (p : Pipe) :
  gap_ok p ->
  (misses_gap y p = true
   <-> F32.ltb y (F32.of_int (gap_y p - Z.quot PIPE_GAP_HEIGHT 2)) = true
       \/ F32.ltb (F32.of_int (gap_y p + Z.quot PIPE_GAP_HEIGHT 2))
                  (F32.add y (F32.of_int BIRD_HEIGHT)) = true).
Proof.
  intros G. unfold misses_gap, gap_ok in *.
  change gap_lo with 60 in G. change gap_hi with 100 in G.
  change (Z.quot PIPE_GAP_HEIGHT 2) with 40.
  assert (E1 : Int32.sub (gap_y p) 40 = gap_y p - 40)
    by (apply wrap_in_range; unfold Int32.in_range, Int32.min_signed,
          Int32.max_signed; lia).
  assert (E2 : Int32.add (gap_y p) 40 = gap_y p + 40)
    by (apply wrap_in_range; unfold Int32.in_range, Int32.min_signed,
          Int32.max_signed; lia).
  rewrite E1, E2, orb_true_iff. reflexivity.
Qed.

(** The bird is never level with both pipes. *)
Lemma one_pipe_at_a_time (s : Vars) (p q : Pipe) :
  pipes_ok s -> In p (pipes s) -> In q (pipes s) ->
  aligned p = true -> aligned q = true -> p = q.
Proof.
  intros (p0 & p1 & E & _ & _ & _ & S) Hp Hq Ap Aq. rewrite E in Hp, Hq.
  assert (R0 : - PIPE_WIDTH <= x p0 <= SCREEN_WIDTH + PIPE_SPACING)
    by (unfold PIPE_WIDTH, SCREEN_WIDTH, PIPE_SPACING, PIPE_SPEED in *; lia).
  assert (R1 : - PIPE_WIDTH <= x p1 <= SCREEN_WIDTH + PIPE_SPACING)
    by (unfold PIPE_WIDTH, SCREEN_WIDTH, PIPE_SPACING, PIPE_SPEED in *; lia).
  pose proof (aligned_iff p0 R0) as A0. pose proof (aligned_iff p1 R1) as A1.
  unfold PIPE_WIDTH, SCREEN_WIDTH, PIPE_SPACING, PIPE_SPEED, BIRD_X_POS,
    BIRD_WIDTH in *.
  destruct Hp as [<- | [<- | []]], Hq as [<- | [<- | []]]; try reflexivity;
    apply A0 in Ap || apply A1 in Ap; apply A0 in Aq || apply A1 in Aq; lia.
Qed.

(** ** The start screen *)

Lemma updateGameLogic_not_start (inp : Input) (s : Vars) :
  gameState s <> START_SCREEN -> gameState (updateGameLogic inp s) <> START_SCREEN.
Proof.
  intros H. unfold updateGameLogic.
  pose proof (before_collisions_gameState inp s) as E. revert E.
  generalize (before_collisions inp s). intros t E.
  unfold checkCollisions. repeat split_if; fields; congruence.
Qed.

Lemma reachable_start (m : Control * Vars) :
  reachable m -> gameState (snd m) = START_SCREEN -> exists g, m = setup g.
Proof.
  induction 1 as [g | inp m _ IH]; [exists g; reflexivity|].
  destruct m as [c s]. unfold step. cbn [fst snd] in *. destruct c.
  - unfold loop. destruct (gameState s) eqn:Eg.
    + destruct (any_pressed inp); cbn [snd]; [|intros _; apply IH; reflexivity].
      fields. discriminate.
    + cbn [snd]. intros C. exfalso.
      apply (updateGameLogic_not_start inp s); [congruence | exact C].
    + destruct (any_pressed inp); cbn [snd];
        [|intros C; rewrite Eg in C; discriminate C].
      generalize (setupGame s). intros t. fields. discriminate.
  - assert (A : gameState s = START_SCREEN -> False).
    { intros C. destruct (IH C) as (g & E). discriminate E. }
    destruct (any_pressed inp); cbn [snd]; intros C; destruct (A C).
Qed.

Lemma runner_start_to_playing (inp : Input) (m : Control * Vars) :
  reachable m -> gameState (snd m) = START_SCREEN ->
  fresh (snd m)
  /\ (any_pressed inp = false -> step inp m = m)
  /\ (any_pressed inp = true ->
      step inp m = (AwaitRelease, set_gameState PLAYING (snd m))).
Proof.
  intros Hr Eg. destruct (reachable_start m Hr Eg) as (g & ->).
  split.
  - unfold setup. cbn [snd].
    apply (setupGame_fresh (globals g) (mkPipe 0 0 false) (mkPipe 0 0 false)).
    reflexivity.
  - unfold setup in *. cbn [snd] in *. unfold step. cbn [fst snd].
    unfold loop. rewrite Eg. split; intros ->; reflexivity.
Qed.

(** ** The claims *)

(** C8. In every reachable state each pipe's gap centre lies in
    [PIPE_GAP_HEIGHT/2 + 20, SCREEN_HEIGHT - PIPE_GAP_HEIGHT/2 - GROUND_HEIGHT - 20],
    which is [60, 100], so that the gap [gap_y - 40, gap_y + 40] lies between
    the top of the screen and the ground strip. *)
Theorem C8_gap_centre_in_band (m : Control * Vars) (p : Pipe) :
  reachable m -> In p (pipes (snd m)) ->
  Z.quot PIPE_GAP_HEIGHT 2 + 20 <= gap_y p
    <= SCREEN_HEIGHT - Z.quot PIPE_GAP_HEIGHT 2 - GROUND_HEIGHT - 20
  /\ 60 <= gap_y p <= 100
  /\ 0 <= gap_y p - Z.quot PIPE_GAP_HEIGHT 2
  /\ gap_y p + Z.quot PIPE_GAP_HEIGHT 2 <= SCREEN_HEIGHT - GROUND_HEIGHT.
Proof.
  intros Hr Hin.
  destruct (reachable_ok m Hr) as (p0 & p1 & E & G0 & G1 & _).
  rewrite E in Hin.
  assert (G : gap_ok p) by (destruct Hin as [<- | [<- | []]]; assumption).
  unfold gap_ok in G.
  change gap_lo with 60 in G. change gap_hi with 100 in G.
  change (Z.quot PIPE_GAP_HEIGHT 2) with 40.
  unfold SCREEN_HEIGHT, GROUND_HEIGHT. lia.
Qed.

Lemma C8_witness :
  60 <= gap_y (mkPipe 318 63 false) <= 100.
Proof.
  apply (C8_gap_centre_in_band
           (run [3; 47]%N [press_left; idle; idle]) (mkPipe 318 63 false)).
  - apply run_reachable_flappy.
  - vm_compute. left. reflexivity.
Defined.





(** C4. With the session in PLAYING, [checkCollisions] moves it to
    GAME_OVER exactly if the bird's top is above 0, or its bottom is below
    SCREEN_HEIGHT - GROUND_HEIGHT, or some pipe is level with the bird while
    the bird is not inside its gap; being level with a pipe and missing its
    gap mean what they should for pipes as the game keeps them. And in a
    tick from a reachable state, a bird within the vertical bounds that is
    level with a pipe and inside its gap raises no GAME_OVER. *)
Theorem C4_collision_iff :
  (forall s, gameState s = PLAYING ->
     (gameState (checkCollisions s) = GAME_OVER
      <-> F32.ltb (bird_y s) (F32.of_int 0) = true
          \/ F32.ltb (F32.of_int (SCREEN_HEIGHT - GROUND_HEIGHT))
                     (F32.add (bird_y s) (F32.of_int BIRD_HEIGHT)) = true
          \/ exists p, In p (pipes s) /\ aligned p = true
                       /\ misses_gap (bird_y s) p = true))
  /\ (forall p y,
        - PIPE_WIDTH <= x p <= SCREEN_WIDTH + PIPE_SPACING -> gap_ok p ->
        (aligned p = true
         <-> x p < BIRD_X_POS + BIRD_WIDTH /\ BIRD_X_POS < x p + PIPE_WIDTH)
        /\ (misses_gap y p = true
            <-> F32.ltb y (F32.of_int (gap_y p - Z.quot PIPE_GAP_HEIGHT 2)) = true
                \/ F32.ltb (F32.of_int (gap_y p + Z.quot PIPE_GAP_HEIGHT 2))
                           (F32.add y (F32.of_int BIRD_HEIGHT)) = true))
  /\ (forall m inp p,
        reachable m -> gameState (snd m) = PLAYING ->
        let c := before_collisions inp (snd m) in
        out_of_bounds c = false ->
        In p (pipes c) -> aligned p = true -> misses_gap (bird_y c) p = false ->
        gameState (updateGameLogic inp (snd m)) = PLAYING).
Proof.
  split; [|split].
  - intros s Eg. destruct (checkCollisions_iff s Eg) as [H _]. rewrite H.
    rewrite hits_pipe_iff. unfold out_of_bounds. rewrite orb_true_iff. tauto.
  - intros p y R G. split; [apply aligned_iff, R | apply misses_gap_iff, G].
  - intros m inp p Hr Eg. cbv zeta. unfold updateGameLogic.
    pose proof (proj1 (updateGameLogic_ok inp (snd m) (reachable_ok m Hr))) as Ok.
    pose proof (before_collisions_gameState inp (snd m)) as Ec. rewrite Eg in Ec.
    revert Ok Ec. generalize (before_collisions inp (snd m)).
    intros c Ok Ec Hb Hin Ha Hm.
    destruct (checkCollisions_iff c Ec) as [H1 H2]. apply H2. intros C.
    apply H1 in C. destruct C as [C | C]; [congruence|].
    apply hits_pipe_iff in C. destruct C as (q & Hq & Aq & Mq).
    assert (p = q) by (eapply one_pipe_at_a_time; eassumption).
    subst q. congruence.
Qed.

Lemma C4_witness :
  gameState (checkCollisions
               (mkVars PLAYING [mkPipe 50 70 false; mkPipe 230 90 false]
                       (F32.of_int 120) (F32.of_int 0) 0 0 false []))
  = GAME_OVER.
Proof.
  destruct C4_collision_iff as (H & _).
  apply (H (mkVars PLAYING [mkPipe 50 70 false; mkPipe 230 90 false]
                   (F32.of_int 120) (F32.of_int 0) 0 0 false []) eq_refl).
  right. right. exists (mkPipe 50 70 false).
  split; [left; reflexivity|]. split; vm_compute; reflexivity.
Defined.


(** C10. [setupGame] leaves [button_was_pressed] alone. In the run
    [crashed] the switch is held through the tick that ends the game, so the
    variable is true at GAME_OVER and still true after the restart
    ([restarted]: the press on the game-over screen, [setupGame], the
    release). A press sampled in the first Playing tick after that is not an
    edge: the bird's velocity after the tick is gravity alone, not the flap
    value plus gravity, which the same tick gives if the variable is false. *)
Theorem C10_stale_press_edge :
  (forall s, button_was_pressed (setupGame s) = button_was_pressed s)
  /\ gameState (snd (run [] ([press_left; idle] ++ repeat press_left 41))) = PLAYING
  /\ crashed = step press_left (run [] ([press_left; idle] ++ repeat press_left 41))
  /\ gameState (snd crashed) = GAME_OVER
  /\ button_was_pressed (snd crashed) = true
  /\ restarted = (AtLoop, set_gameState PLAYING (setupGame (snd crashed)))
  /\ button_was_pressed (snd restarted) = true
  /\ bird_y_velocity (updateGameLogic press_left (snd restarted))
     = fall (F32.of_int 0)
  /\ fall (F32.of_int 0) <> fall (F32.of_double FLAP_VELOCITY)
  /\ bird_y_velocity
       (updateGameLogic press_left (set_button_was_pressed false (snd restarted)))
     = fall (F32.of_double FLAP_VELOCITY).
Proof.
  split; [intros s; apply setupGame_keeps|].
  do 7 (split; [vm_compute; reflexivity|]).
  split; [vm_compute; discriminate | vm_compute; reflexivity].
Qed.

End FlappyFacts.

(** * The session state machine of both sketches *)

(** C1, as stated, fails for the obstacle runner. From the state that
    [setup()] leaves, a press on the start screen moves the session to
    PLAYING and changes nothing else: no pipe is spawned and no random
    number is drawn, where a re-initialisation ([setupGame], which the
    GAME_OVER -> PLAYING transition does call) would have spawned other
    pipes. *)
Lemma C1_counterexample :
  Flappy.reachable (Flappy.setup [5; 9; 13; 21]%N)
  /\ Flappy.gameState (snd (Flappy.setup [5; 9; 13; 21]%N)) = START_SCREEN
  /\ Flappy.step press_left (Flappy.setup [5; 9; 13; 21]%N)
     = (AwaitRelease,
        Flappy.set_gameState PLAYING (snd (Flappy.setup [5; 9; 13; 21]%N)))
  /\ Flappy.rng (snd (Flappy.step press_left (Flappy.setup [5; 9; 13; 21]%N)))
     = Flappy.rng (snd (Flappy.setup [5; 9; 13; 21]%N))
  /\ Flappy.pipes (snd (Flappy.step press_left (Flappy.setup [5; 9; 13; 21]%N)))
     = [Flappy.mkPipe 320 65 false; Flappy.mkPipe 500 69 false]
  /\ Flappy.pipes (Flappy.setupGame (snd (Flappy.setup [5; 9; 13; 21]%N)))
     = [Flappy.mkPipe 320 73 false; Flappy.mkPipe 500 81 false].
Proof.
  split; [apply Flappy.reach_setup|].
  do 4 (split; [vm_compute; reflexivity|]).
  vm_compute. reflexivity.
Qed.

(** C1, amended. In the paddle-ball sketch the start screen is left for
    PLAYING exactly on a press, and that transition runs [resetGame]: both
    scores 0, both paddles at x = 120 and a ball served from the centre, in
    place when the busy wait ends and the first Playing tick runs. In the
    obstacle runner the start screen is left for PLAYING exactly on a press,
    and that transition changes the session state only: the entity state it
    starts from is the fresh one [setup()] made (score 0, bird at 85 at rest,
    pipes at 320 and 500, unscored, gap centres as drawn). It is the
    GAME_OVER -> PLAYING transition that re-initialises, with [setupGame]. *)
Theorem C1_start_to_playing :
  (forall inp s, Pong.gameState s = START_SCREEN ->
     (any_pressed inp = false -> Pong.loop inp s = (AtLoop, s))
     /\ (any_pressed inp = true ->
         exists s', Pong.loop inp s = (AwaitRelease, s')
           /\ Pong.gameState s' = PLAYING
           /\ Pong.playerScore s' = 0 /\ Pong.aiScore s' = 0
           /\ Pong.player_x s'
              = F32.of_int (Z.quot (Pong.SCREEN_WIDTH - Pong.PADDLE_WIDTH) 2)
           /\ Pong.ai_x s'
              = F32.of_int (Z.quot (Pong.SCREEN_WIDTH - Pong.PADDLE_WIDTH) 2)
           /\ (Pong.served 1 s' \/ Pong.served (-1) s')
           /\ forall inp', snd (Pong.step inp' (AwaitRelease, s')) = s'))
  /\ (forall inp m, Flappy.reachable m ->
        Flappy.gameState (snd m) = START_SCREEN ->
        Flappy.fresh (snd m)
        /\ (any_pressed inp = false -> Flappy.step inp m = m)
        /\ (any_pressed inp = true ->
            Flappy.step inp m
            = (AwaitRelease, Flappy.set_gameState PLAYING (snd m))))
  /\ (forall inp m, Flappy.reachable m ->
        Flappy.gameState (snd m) = GAME_OVER -> fst m = AtLoop ->
        any_pressed inp = true ->
        Flappy.step inp m
        = (AwaitRelease, Flappy.set_gameState PLAYING (Flappy.setupGame (snd m)))
        /\ Flappy.fresh (Flappy.setupGame (snd m))).
Proof.
  split; [exact start_to_playing|].
  split; [exact runner_start_to_playing|].
  intros inp [c s] Hr Eg Ec Hp. cbn [fst snd] in *. subst c.
  unfold Flappy.step, Flappy.loop. cbn [fst snd]. rewrite Eg, Hp.
  split; [reflexivity|].
  destruct (reachable_ok _ Hr) as (p0 & p1 & E & _). cbn [snd] in E.
  apply (setupGame_fresh s p0 p1 E).
Qed.

Lemma C1_witness :
  Flappy.fresh (snd (Flappy.setup [5; 9; 13; 21]%N))
  /\ Flappy.step press_left (Flappy.setup [5; 9; 13; 21]%N)
     = (AwaitRelease,
        Flappy.set_gameState PLAYING (snd (Flappy.setup [5; 9; 13; 21]%N))).
Proof.
  destruct C1_start_to_playing as (_ & H & _).
  destruct (H press_left (Flappy.setup [5; 9; 13; 21]%N)
              (Flappy.reach_setup _) eq_refl) as (F & _ & P).
  split; [exact F | apply P; reflexivity].
Defined.
